(** * Events screen (src/app/drawer/Events.tsx): the event feed logic

    A shallow embedding of the logic of the [Events] component: the
    temporal filter and the de-duplication by [event_id] that
    [fetchEventData] applies to a fetched payload, and the state updates
    of [fetchEventData] and [deleteEvent].

    Conventions.
    - A JavaScript [Date] is represented by its time value: [Some t] for
      [t] milliseconds since the epoch, [None] for an Invalid Date (time
      value NaN).
    - [new Date(s)] on a string is engine-defined outside the ISO formats,
      so the string parser is a parameter ([DateParse]) of the development.
    - A JavaScript [Map] iterates in insertion order; it is an association
      list kept in insertion order.
    - The component state ([useState] cells) is a record that each handler
      transforms; alerts and console errors are logged in the state. *)

From Stdlib Require Import Ascii String.
From stdpp Require Import base numbers list strings.

Local Open Scope Z_scope.

(** ** Data model *)

(** [interface EventData] (lines 20-30). *)
Record EventData : Type := mkEventData {
  event_id : Z;
  event_name : string;
  start_time : string;
  end_time : string;
  location : option string;
  description : string;
  privacy : string;
  story : option string;
  repeat_event : string
}.

(** ** JavaScript [Date] values and their comparison *)

Module Date.

(** The time value of a [Date]; [None] is NaN (Invalid Date). *)
Definition t : Type := option Z.

(** [a >= b] on two [Date] objects: both are converted to their time
    values, and a comparison with a NaN operand is [false]. *)
Definition ge (a b : t) : bool :=
  match a, b with
  | Some x, Some y => y <=? x
  | _, _ => false
  end.

End Date.

(** ** JavaScript [Map<number, V>] in insertion order *)

Module JSMap.

Definition t (V : Type) : Type := list (Z * V).

(** [new Map()] *)
Definition empty {V} : t V := [].

(** [m.has(k)] *)
Definition has {V} (k : Z) (m : t V) : bool :=
  existsb (fun kv => fst kv =? k) m.

(** [m.set(k, v)]: an existing key keeps its place and takes the new
    value, a new key is appended. *)
Definition set {V} (k : Z) (v : V) (m : t V) : t V :=
  if has k m
  then map (fun kv => if fst kv =? k then (k, v) else kv) m
  else m ++ [(k, v)].

(** [Array.from(m.values())] *)
Definition values {V} (m : t V) : list V := map snd m.

Definition keys {V} (m : t V) : list Z := map fst m.

End JSMap.

(** ** De-duplication (lines 104-113) *)

(** The body of the [forEach] callback: the event is stored unless its
    identifier is already a key. *)
Definition removeDuplicateEvents_step
    (uniqueEventMap : JSMap.t EventData) (event : EventData)
    : JSMap.t EventData :=
  if negb (JSMap.has (event_id event) uniqueEventMap)
  then JSMap.set (event_id event) event uniqueEventMap
  else uniqueEventMap.

Definition removeDuplicateEvents (events : list EventData) : list EventData :=
  JSMap.values (fold_left removeDuplicateEvents_step events JSMap.empty).

(** The de-duplication as a recursion over the input: [seen] holds the
    identifiers met so far, in the order in which they were first met; a
    record is kept when its identifier is not in [seen]. *)
Fixpoint keepFirst (seen : list Z) (l : list EventData) : list EventData :=
  match l with
  | [] => []
  | event :: rest =>
      if existsb (fun k => k =? event_id event) seen
      then keepFirst seen rest
      else event :: keepFirst (seen ++ [event_id event]) rest
  end.

(** The first record of [l] that bears identifier [id]. *)
Definition firstWithId (id : Z) (l : list EventData) : option EventData :=
  List.find (fun event => event_id event =? id) l.

(** The identifiers of a list of records, in order. *)
Definition ids (l : list EventData) : list Z := map event_id l.

(** ** The component state *)

Record State : Type := mkState {
  events : list EventData;
  loading : bool;
  userId : option string;
  console : list string;           (* console.error calls, oldest first *)
  alerts : list (string * string)  (* Alert.alert(title, message), oldest first *)
}.

Definition setEvents (f : list EventData -> list EventData) (st : State) : State :=
  mkState (f (events st)) (loading st) (userId st) (console st) (alerts st).

Definition setLoading (b : bool) (st : State) : State :=
  mkState (events st) b (userId st) (console st) (alerts st).

Definition console_error (msg : string) (st : State) : State :=
  mkState (events st) (loading st) (userId st) (console st ++ [msg]) (alerts st).

Definition Alert_alert (title msg : string) (st : State) : State :=
  mkState (events st) (loading st) (userId st) (console st) (alerts st ++ [(title, msg)]).

(** The initial state of the [useState] cells (lines 33-38). *)
Definition initialState : State := mkState [] true None [] [].

(** What the scroll view shows (lines 184-187 and 270-272). *)
Inductive View : Type :=
  | LoadingText
  | EventCards (shown : list EventData)
  | NoEventsFound.

Definition render (st : State) : View :=
  if loading st then LoadingText
  else if (0 <? length (events st))%nat then EventCards (events st)
  else NoEventsFound.

(** The event records on screen. *)
Definition displayed (st : State) : list EventData :=
  match render st with
  | EventCards shown => shown
  | _ => []
  end.

(** ** Responses of the two network calls *)

(** The value of [response.json()] of the fetch: an array of records or
    anything else. *)
Inductive Payload : Type :=
  | JArray (data : list EventData)
  | JOther.

Inductive FetchResponse : Type :=
  | FetchRejected                         (* fetch() throws *)
  | FetchNotOk (status : Z)               (* !response.ok *)
  | FetchOk (body : option Payload).      (* None: response.json() throws *)

(** The response of the DELETE request. On a response that is not ok the
    body is read: [None] when reading it throws, otherwise the [message]
    field of the body, if any. *)
Inductive DeleteResponse : Type :=
  | DeleteRejected
  | DeleteOk
  | DeleteNotOk (body : option (option string)).

(** ** The fetch handler (lines 62-99) *)

Section Reconcile.

(** The time value of [new Date(s)] for a string [s]. *)
Variable DateParse : string -> Date.t.

(** The callback of [data.filter] (lines 81-84). *)
Definition isUpcoming (now : Z) (event : EventData) : bool :=
  let eventEndTime := DateParse (end_time event) in
  Date.ge eventEndTime (Some now).

Definition upcomingEvents (data : list EventData) (now : Z) : list EventData :=
  List.filter (isUpcoming now) data.

(** Lines 78-87: the list handed to [setEvents]. *)
Definition reconcile (data : list EventData) (now : Z) : list EventData :=
  removeDuplicateEvents (upcomingEvents data now).

(** [fetchEventData] on the response of the fetch; [now] is the clock
    reading of [new Date()]. The [finally] block sets [loading] to
    [false] on every path that entered the [try]. *)
Definition fetchEventData (now : Z) (resp : FetchResponse) (st : State) : State :=
  match userId st with
  | None => st
  | Some _ =>
      let st1 := setLoading true st in
      let st2 :=
        match resp with
        | FetchRejected => console_error "Fetch error:" st1
        | FetchNotOk _ => setLoading false (console_error "HTTP error:" st1)
        | FetchOk None => console_error "Fetch error:" st1
        | FetchOk (Some (JArray data)) =>
            setEvents (fun _ => reconcile data now) st1
        | FetchOk (Some JOther) => console_error "Invalid data format:" st1
        end in
      setLoading false st2
  end.

(** The record at position [i] of [data] is one the reconciliation
    keeps: it passes the filter and no earlier record that passes the
    filter bears its identifier. The payload of [response.json()] holds a
    distinct object at every position, so positions identify the
    records. *)
Definition keptAt (data : list EventData) (now : Z) (i : nat) : bool :=
  match data !! i with
  | Some event =>
      isUpcoming now event &&
      negb (existsb
              (fun other => isUpcoming now other && (event_id other =? event_id event))
              (take i data))
  | None => false
  end.

(** The reconciliation as the specification words it: first the
    temporal filter (keep the records whose end time is at or after
    [now]), then the de-duplication by identifier that iterates in order
    and keeps first occurrences. *)
Definition spec_temporalFilter (l : list EventData) (now : Z) : list EventData :=
  List.filter
    (fun r => match DateParse (end_time r) with
              | Some t => bool_decide (now <= t)
              | None => false
              end) l.

Definition spec_dedupe (l : list EventData) : list EventData := keepFirst [] l.

Definition spec_reconcile (l : list EventData) (now : Z) : list EventData :=
  spec_dedupe (spec_temporalFilter l now).

(** The property that every record of the output is the first record of
    the raw input with its identifier. *)
Definition keepsFirstInputOccurrence (l : list EventData) (now : Z) : Prop :=
  Forall (fun r => firstWithId (event_id r) l = Some r) (reconcile l now).

End Reconcile.

(** ** Deletion (lines 135-166) *)

(** [errorData.message || "Failed to delete the event."]: a missing or
    empty message is falsy. *)
Definition deleteErrorMessage (message : option string) : string :=
  match message with
  | Some m => if String.eqb m "" then "Failed to delete the event." else m
  | None => "Failed to delete the event."
  end.

Definition deleteEvent (eventId : Z) (resp : DeleteResponse) (st : State) : State :=
  match resp with
  | DeleteOk =>
      setEvents
        (fun prevEvents =>
           List.filter (fun event => negb (event_id event =? eventId)) prevEvents)
        (Alert_alert "Success" "Event deleted successfully!" st)
  | DeleteNotOk (Some message) =>
      Alert_alert "Error" (deleteErrorMessage message)
        (console_error "Delete error:" st)
  | DeleteNotOk None | DeleteRejected =>
      Alert_alert "Error" "An error occurred while deleting the event."
        (console_error "Network error:" st)
  end.

(** ** The confirmation dialog (lines 115-133) *)

(** How the user leaves the dialog: one of its two buttons, or a dismissal
    (the dialog is [cancelable]). *)
Inductive AlertChoice : Type :=
  | PressCancel
  | PressDelete
  | DismissAlert.

(** [handleDelete]: the dialog is shown; only its "Delete" button runs
    [deleteEvent], whose request then gets the response [resp]. *)
Definition handleDelete
    (eventId : Z) (choice : AlertChoice) (resp : DeleteResponse) (st : State) : State :=
  let st1 :=
    Alert_alert "Delete Event" "Are you sure you want to delete this event?" st in
  match choice with
  | PressDelete => deleteEvent eventId resp st1
  | PressCancel | DismissAlert => st1
  end.

(** ** Reading the user identifier (lines 40-58) *)

Definition setUserId (id : string) (st : State) : State :=
  mkState (events st) (loading st) (Some id) (console st) (alerts st).

(** The outcome of [AsyncStorage.getItem("user_id")]: the stored item
    ([None] for [null]), or an exception. *)
Inductive StorageResult : Type :=
  | StorageItem (id : option string)
  | StorageThrows.

Definition getUserId (res : StorageResult) (st : State) : State :=
  match res with
  | StorageItem (Some id) => setUserId id st
  | StorageItem None =>
      setLoading false (console_error "No user_id found in AsyncStorage" st)
  | StorageThrows =>
      setLoading false (console_error "Error retrieving user_id:" st)
  end.

(** ** The event cards (lines 183-273) *)

Inductive Route : Type :=
  | RouteUploadStory (eventId : Z)    (* pathname "./UploadStory" *)
  | RouteEditEvent (eventId : Z)      (* pathname "./EditEvent" *)
  | RouteCreateEvent.                 (* "/drawer/CreateEvent" *)

(** The right part of a card: the story image, or the "+ Add story"
    button with the route it pushes. *)
Inductive StoryView : Type :=
  | StoryImage (uri : string)
  | AddStoryButton (target : Route).

Record Card : Type := mkCard {
  card_key : Z;                     (* key={event.event_id} *)
  card_name : string;
  card_start : string;
  card_end : string;
  card_location : option string;
  card_description : string;
  card_story : StoryView;
  card_edit : Route;                (* the edit button *)
  card_delete : Z                   (* the argument of handleDelete *)
}.

(** [event.story ? ... : ...]: [null] and the empty string are falsy. *)
Definition storyView (event : EventData) : StoryView :=
  match story event with
  | Some s =>
      if String.eqb s "" then AddStoryButton (RouteUploadStory (event_id event))
      else StoryImage ("https://deco3801-foundjesse.uqcloud.net/uploads/" ++ s)
  | None => AddStoryButton (RouteUploadStory (event_id event))
  end.

Definition eventCard (event : EventData) : Card :=
  mkCard (event_id event) (event_name event)
         ("Start: " ++ start_time event) ("End: " ++ end_time event)
         (location event) (description event)
         (storyView event) (RouteEditEvent (event_id event)) (event_id event).

(** The cards of the scroll view: [events.map(...)] when the list is shown. *)
Definition cards (st : State) : list Card :=
  match render st with
  | EventCards shown => map eventCard shown
  | LoadingText | NoEventsFound => []
  end.

(** ** Runs of the component

    Each handler is run to completion on the outcome of its request; a run
    is a sequence of such handler executions. *)

Inductive Action : Type :=
  | ActGetUserId (res : StorageResult)
  | ActFetch (now : Z) (resp : FetchResponse)
  | ActHandleDelete (eventId : Z) (choice : AlertChoice) (resp : DeleteResponse).

Definition step (DateParse : string -> Date.t) (st : State) (a : Action) : State :=
  match a with
  | ActGetUserId res => getUserId res st
  | ActFetch now resp => fetchEventData DateParse now resp st
  | ActHandleDelete eventId choice resp => handleDelete eventId choice resp st
  end.

Definition run (DateParse : string -> Date.t) (acts : list Action) (st : State) : State :=
  fold_left (step DateParse) acts st.

(** The records of the array payloads received during a run. *)
Definition fetchedRecords (acts : list Action) : list EventData :=
  flat_map (fun a => match a with
                     | ActFetch _ (FetchOk (Some (JArray data))) => data
                     | _ => []
                     end) acts.

(** The [filter] callback of a successful deletion. *)
Definition hasOtherId (eventId : Z) (event : EventData) : bool :=
  negb (event_id event =? eventId).

(** ** A date parser for the worked examples

    The ECMAScript date-only form [YYYY-MM-DD] denotes midnight UTC of
    that day. [parseDateOnly] covers this form for real calendar days and
    answers Invalid Date elsewhere; it instantiates [DateParse] in the
    examples below, whose strings are all of this form or contain no
    date at all. *)

Definition digitValue (c : ascii) : option Z :=
  let n := Z.of_N (N_of_ascii c) in
  if (48 <=? n) && (n <=? 57) then Some (n - 48) else None.

Definition isLeapYear (y : Z) : bool :=
  (y mod 4 =? 0) && (negb (y mod 100 =? 0) || (y mod 400 =? 0)).

Definition daysInMonth (y m : Z) : Z :=
  if m =? 2 then (if isLeapYear y then 29 else 28)
  else if (m =? 4) || (m =? 6) || (m =? 9) || (m =? 11) then 30
  else 31.

(** Days from 1970-01-01 to the given day of the proleptic Gregorian
    calendar. *)
Definition daysFromCivil (y m d : Z) : Z :=
  let y' := if m <=? 2 then y - 1 else y in
  let era := y' / 400 in
  let yoe := y' - era * 400 in
  let mp := (m + 9) mod 12 in
  let doy := (153 * mp + 2) / 5 + d - 1 in
  let doe := yoe * 365 + yoe / 4 - yoe / 100 + doy in
  era * 146097 + doe - 719468.

Definition msPerDay : Z := 86400000.

Definition parseDateOnly (s : string) : Date.t :=
  match list_ascii_of_string s with
  | [y1; y2; y3; y4; s1; m1; m2; s2; d1; d2] =>
      if Ascii.eqb s1 "-" && Ascii.eqb s2 "-" then
        a ← digitValue y1; b ← digitValue y2; c ← digitValue y3; d ← digitValue y4;
        e ← digitValue m1; f ← digitValue m2; g ← digitValue d1; h ← digitValue d2;
        let y := 1000 * a + 100 * b + 10 * c + d in
        let m := 10 * e + f in
        let dd := 10 * g + h in
        if (1 <=? m) && (m <=? 12) && (1 <=? dd) && (dd <=? daysInMonth y m)
        then Some (daysFromCivil y m dd * msPerDay)
        else None
      else None
  | _ => None
  end.

(** Records and instants of the examples. *)
Definition sampleEvent (id : Z) (name end_ : string) : EventData :=
  mkEventData id name "2000-01-01" end_ None "" "public" None "none".

(** 2024-01-01T00:00:00Z *)
Definition now2024 : Z := 1704067200000.

Definition sampleState (l : list EventData) : State :=
  mkState l false (Some "7") [] [].

Example parseDateOnly_2024 : parseDateOnly "2024-01-01" = Some now2024.
Proof. reflexivity. Qed.

Example parseDateOnly_epoch : parseDateOnly "1970-01-01" = Some 0.
Proof. reflexivity. Qed.

Example parseDateOnly_2099 : parseDateOnly "2099-01-01" = Some 4070908800000.
Proof. reflexivity. Qed.

Example parseDateOnly_2000 : parseDateOnly "2000-01-01" = Some 946684800000.
Proof. reflexivity. Qed.

Example parseDateOnly_invalid : parseDateOnly "invalid" = None.
Proof. reflexivity. Qed.

(** The scenario of the specification: the second record with identifier
    1 is dropped as a repeat, the record with identifier 2 as expired. *)
Example reconcile_scenario :
  reconcile parseDateOnly
    [sampleEvent 1 "a" "2099-01-01"; sampleEvent 1 "b" "2099-06-01";
     sampleEvent 2 "c" "2000-01-01"] now2024
  = [sampleEvent 1 "a" "2099-01-01"].
Proof. reflexivity. Qed.

Example reconcile_all_expired :
  reconcile parseDateOnly
    [sampleEvent 1 "a" "2001-01-01"; sampleEvent 2 "b" "2023-12-31"] now2024 = [].
Proof. reflexivity. Qed.

Example reconcile_empty : reconcile parseDateOnly [] now2024 = [].
Proof. reflexivity. Qed.

(** ** The map operations *)

Lemma existsb_eqb_elem_of (k : Z) (s : list Z) :
  existsb (fun k' => k' =? k) s = true <-> k ∈ s.
Proof.
  rewrite existsb_exists. split.
  - intros (k' & Hin & Heq). apply Z.eqb_eq in Heq. subst k'.
    by apply list_elem_of_In.
  - intros Hin. exists k. split; [by apply list_elem_of_In | apply Z.eqb_refl].
Qed.

Lemma existsb_eqb_not_elem_of (k : Z) (s : list Z) :
  existsb (fun k' => k' =? k) s = false <-> k ∉ s.
Proof.
  rewrite <- existsb_eqb_elem_of. destruct (existsb _ s); split; congruence.
Qed.

Lemma JSMap_has_keys {V} (k : Z) (m : JSMap.t V) :
  JSMap.has k m = existsb (fun k' => k' =? k) (JSMap.keys m).
Proof.
  unfold JSMap.has, JSMap.keys. induction m as [|kv m IH]; simpl; [done|].
  by rewrite IH.
Qed.

Lemma JSMap_keys_snoc {V} (m : JSMap.t V) (k : Z) (v : V) :
  JSMap.keys (m ++ [(k, v)]) = JSMap.keys m ++ [k].
Proof. unfold JSMap.keys. by rewrite map_app. Qed.

Lemma JSMap_values_snoc {V} (m : JSMap.t V) (k : Z) (v : V) :
  JSMap.values (m ++ [(k, v)]) = JSMap.values m ++ [v].
Proof. unfold JSMap.values. by rewrite map_app. Qed.

(** A key that is absent is appended by [set]; this is the only way
    [removeDuplicateEvents] calls it. *)
Lemma JSMap_set_fresh {V} (m : JSMap.t V) (k : Z) (v : V) :
  JSMap.has k m = false -> JSMap.set k v m = m ++ [(k, v)].
Proof. intros H. unfold JSMap.set. by rewrite H. Qed.

(** ** The loop of [removeDuplicateEvents] *)

(** Invariant of the [forEach] loop: from a map [m], the loop appends to
    the values of [m] the records of [l] whose identifier is new, in
    order. *)
Lemma removeDuplicateEvents_loop (l : list EventData) (m : JSMap.t EventData) :
  JSMap.values (fold_left removeDuplicateEvents_step l m)
  = JSMap.values m ++ keepFirst (JSMap.keys m) l.
Proof.
  revert m. induction l as [|e l IH]; intros m; simpl.
  - by rewrite app_nil_r.
  - rewrite IH. unfold removeDuplicateEvents_step.
    rewrite JSMap_has_keys.
    destruct (existsb _ (JSMap.keys m)) eqn:Hseen; simpl; [done|].
    rewrite JSMap_set_fresh by (by rewrite JSMap_has_keys).
    rewrite JSMap_keys_snoc, JSMap_values_snoc, <- app_assoc. done.
Qed.

Lemma removeDuplicateEvents_keepFirst (l : list EventData) :
  removeDuplicateEvents l = keepFirst [] l.
Proof. unfold removeDuplicateEvents. by rewrite removeDuplicateEvents_loop. Qed.

(** ** Properties of [keepFirst] *)

Lemma keepFirst_sublist (seen : list Z) (l : list EventData) :
  keepFirst seen l `sublist_of` l.
Proof.
  revert seen. induction l as [|e l IH]; intros seen; simpl.
  - constructor.
  - destruct (existsb _ seen).
    + apply sublist_cons, IH.
    + apply sublist_skip, IH.
Qed.

Lemma keepFirst_elem_of (seen : list Z) (l : list EventData) (e : EventData) :
  e ∈ keepFirst seen l -> e ∈ l.
Proof. apply sublist_subseteq, keepFirst_sublist. Qed.

(** No kept record bears an identifier of [seen]. *)
Lemma keepFirst_not_seen (seen : list Z) (l : list EventData) (e : EventData) :
  e ∈ keepFirst seen l -> event_id e ∉ seen.
Proof.
  revert seen. induction l as [|a l IH]; intros seen; simpl.
  - by intros ?%elem_of_nil.
  - destruct (existsb _ seen) eqn:Hseen.
    + apply IH.
    + intros [->|Hin]%elem_of_cons.
      * by apply existsb_eqb_not_elem_of.
      * apply IH in Hin. intros Hs. apply Hin, elem_of_app. by left.
Qed.

Lemma keepFirst_NoDup (seen : list Z) (l : list EventData) :
  NoDup (ids (keepFirst seen l)).
Proof.
  revert seen. induction l as [|a l IH]; intros seen; simpl.
  - constructor.
  - destruct (existsb _ seen) eqn:Hseen; [apply IH|].
    simpl. constructor; [|apply IH].
    unfold ids. intros (e & Heq & Hin)%list_elem_of_fmap.
    apply keepFirst_not_seen in Hin. apply Hin.
    rewrite <- Heq. apply elem_of_app. right. by apply list_elem_of_singleton.
Qed.

(** A list without repeated identifiers, none of them seen, is kept whole. *)
Lemma keepFirst_id (seen : list Z) (l : list EventData) :
  NoDup (ids l) -> (forall e, e ∈ l -> event_id e ∉ seen) -> keepFirst seen l = l.
Proof.
  revert seen. induction l as [|a l IH]; intros seen Hnd Hfresh; simpl; [done|].
  assert (Ha : existsb (fun k => k =? event_id a) seen = false).
  { apply existsb_eqb_not_elem_of, Hfresh. by left. }
  rewrite Ha. f_equal. simpl in Hnd. apply NoDup_cons in Hnd as [Hna Hnd].
  apply IH; [done|]. intros e He [Hs|Hs%list_elem_of_singleton]%elem_of_app.
  - eapply Hfresh; [by right|done].
  - apply Hna. rewrite <- Hs. unfold ids. apply list_elem_of_fmap. by exists e.
Qed.

(** The loop over a concatenation: the second part is processed with the
    identifiers kept from the first part added to [seen]. *)
Lemma keepFirst_app (seen : list Z) (l1 l2 : list EventData) :
  keepFirst seen (l1 ++ l2)
  = keepFirst seen l1 ++ keepFirst (seen ++ ids (keepFirst seen l1)) l2.
Proof.
  revert seen. induction l1 as [|a l1 IH]; intros seen; simpl.
  - by rewrite app_nil_r.
  - destruct (existsb _ seen) eqn:Hseen; [apply IH|].
    simpl. rewrite IH. by rewrite <- app_assoc.
Qed.

(** Every kept record is the first record of the list with its
    identifier. *)
Lemma keepFirst_first (seen : list Z) (l : list EventData) (e : EventData) :
  e ∈ keepFirst seen l -> firstWithId (event_id e) l = Some e.
Proof.
  unfold firstWithId. revert seen. induction l as [|a l IH]; intros seen; simpl.
  - by intros ?%elem_of_nil.
  - destruct (existsb _ seen) eqn:Hseen.
    + intros Hin. pose proof (keepFirst_not_seen _ _ _ Hin) as Hns.
      apply existsb_eqb_elem_of in Hseen.
      destruct (Z.eqb_spec (event_id a) (event_id e)) as [Heq|_]; [|by eapply IH].
      rewrite Heq in Hseen. done.
    + intros [->|Hin]%elem_of_cons; [by rewrite Z.eqb_refl|].
      pose proof (keepFirst_not_seen _ _ _ Hin) as Hns.
      destruct (Z.eqb_spec (event_id a) (event_id e)) as [Heq|_]; [|by eapply IH].
      exfalso. apply Hns, elem_of_app. right. by apply list_elem_of_singleton.
Qed.

(** Every identifier of the list that is not seen is the identifier of a
    kept record. *)
Lemma keepFirst_covers (seen : list Z) (l : list EventData) (e : EventData) :
  e ∈ l -> event_id e ∉ seen -> event_id e ∈ ids (keepFirst seen l).
Proof.
  revert seen. induction l as [|a l IH]; intros seen; simpl.
  - by intros ?%elem_of_nil.
  - intros Hin Hns. destruct (existsb _ seen) eqn:Hseen.
    + apply elem_of_cons in Hin as [->|Hin]; [|by apply IH].
      by apply existsb_eqb_elem_of in Hseen.
    + simpl. destruct (decide (event_id e = event_id a)) as [->|Hne]; [by left|].
      right. apply elem_of_cons in Hin as [->|Hin]; [done|].
      apply IH; [done|].
      intros [?|?%list_elem_of_singleton]%elem_of_app; done.
Qed.

(** ** The temporal filter *)

Lemma filter_sublist_of {A} (f : A -> bool) (l : list A) :
  List.filter f l `sublist_of` l.
Proof.
  induction l as [|a l IH]; simpl; [constructor|].
  destruct (f a); by constructor.
Qed.

Lemma filter_all_pass {A} (f : A -> bool) (l : list A) :
  (forall a, a ∈ l -> f a = true) -> List.filter f l = l.
Proof.
  induction l as [|a l IH]; intros Hall; simpl; [done|].
  rewrite (Hall a) by (by left). f_equal. apply IH. intros b Hb. apply Hall. by right.
Qed.

Lemma elem_of_filter_bool {A} (f : A -> bool) (l : list A) (a : A) :
  a ∈ List.filter f l <-> a ∈ l /\ f a = true.
Proof. by rewrite !list_elem_of_In, filter_In. Qed.

Lemma Date_ge_spec (a : Date.t) (now : Z) :
  Date.ge a (Some now) = true <-> exists t, a = Some t /\ now <= t.
Proof.
  destruct a as [t|]; simpl.
  - rewrite Z.leb_le. split; [by exists t | by intros (? & [= ->] & ?)].
  - split; [done | by intros (? & ? & _)].
Qed.

Section ReconcileFacts.

Variable DateParse : string -> Date.t.

Local Abbreviation isUpcoming := (isUpcoming DateParse).
Local Abbreviation upcomingEvents := (upcomingEvents DateParse).
Local Abbreviation reconcile := (reconcile DateParse).
Local Abbreviation keptAt := (keptAt DateParse).
Local Abbreviation fetchEventData := (fetchEventData DateParse).

Lemma isUpcoming_spec (now : Z) (e : EventData) :
  isUpcoming now e = true <-> exists t, DateParse (end_time e) = Some t /\ now <= t.
Proof. apply Date_ge_spec. Qed.

Lemma isUpcoming_invalid (now : Z) (e : EventData) :
  DateParse (end_time e) = None -> isUpcoming now e = false.
Proof. unfold isUpcoming. by intros ->. Qed.

Lemma elem_of_upcomingEvents (l : list EventData) (now : Z) (e : EventData) :
  e ∈ upcomingEvents l now <-> e ∈ l /\ isUpcoming now e = true.
Proof. apply elem_of_filter_bool. Qed.

Lemma upcomingEvents_app (l1 l2 : list EventData) (now : Z) :
  upcomingEvents (l1 ++ l2) now = upcomingEvents l1 now ++ upcomingEvents l2 now.
Proof. apply List.filter_app. Qed.

Lemma upcomingEvents_cons_true (e : EventData) (l : list EventData) (now : Z) :
  isUpcoming now e = true -> upcomingEvents (e :: l) now = e :: upcomingEvents l now.
Proof. intros H. unfold upcomingEvents. simpl. by rewrite H. Qed.

Lemma upcomingEvents_cons_false (e : EventData) (l : list EventData) (now : Z) :
  isUpcoming now e = false -> upcomingEvents (e :: l) now = upcomingEvents l now.
Proof. intros H. unfold upcomingEvents. simpl. by rewrite H. Qed.

Lemma reconcile_keepFirst (l : list EventData) (now : Z) :
  reconcile l now = keepFirst [] (upcomingEvents l now).
Proof. apply removeDuplicateEvents_keepFirst. Qed.

Lemma elem_of_reconcile (l : list EventData) (now : Z) (e : EventData) :
  e ∈ reconcile l now -> e ∈ l /\ isUpcoming now e = true.
Proof.
  rewrite reconcile_keepFirst. intros H%keepFirst_elem_of.
  by apply elem_of_upcomingEvents.
Qed.

Lemma reconcile_sublist (l : list EventData) (now : Z) :
  reconcile l now `sublist_of` l.
Proof.
  rewrite reconcile_keepFirst. etrans; [apply keepFirst_sublist|].
  apply filter_sublist_of.
Qed.

(** An identifier kept from the records that pass the filter is the
    identifier of a record of the input that passes the filter. *)
Lemma ids_keepFirst_upcoming (seen : list Z) (l : list EventData) (now k : Z) :
  k ∈ ids (keepFirst seen (upcomingEvents l now)) ->
  exists e, e ∈ l /\ isUpcoming now e = true /\ event_id e = k.
Proof.
  intros (e & -> & Hin)%list_elem_of_fmap.
  apply keepFirst_elem_of, elem_of_upcomingEvents in Hin as [? ?]. by exists e.
Qed.

(** Two records that the reconciliation keeps come out in their input
    order. *)
Lemma reconcile_two (l1 l2 l3 : list EventData) (x y : EventData) (now : Z) :
  isUpcoming now x = true -> isUpcoming now y = true ->
  (forall e, e ∈ l1 -> isUpcoming now e = true -> event_id e <> event_id x) ->
  (forall e, e ∈ l1 ++ x :: l2 -> isUpcoming now e = true -> event_id e <> event_id y) ->
  exists A B C, reconcile ((l1 ++ x :: l2) ++ y :: l3) now = A ++ x :: B ++ y :: C.
Proof.
  intros Hx Hy Hfx Hfy. rewrite reconcile_keepFirst.
  rewrite !upcomingEvents_app, upcomingEvents_cons_true by done.
  rewrite (upcomingEvents_cons_true y) by done.
  rewrite <- app_assoc. simpl.
  rewrite keepFirst_app. simpl.
  set (A := keepFirst [] (upcomingEvents l1 now)).
  assert (HxA : existsb (fun k => k =? event_id x) (ids A) = false).
  { apply existsb_eqb_not_elem_of. intros (e & He & Hu & Hid)%ids_keepFirst_upcoming.
    by apply (Hfx e). }
  rewrite HxA. rewrite keepFirst_app. simpl.
  set (S1 := ids A ++ [event_id x]).
  set (B := keepFirst S1 (upcomingEvents l2 now)).
  assert (HyB : existsb (fun k => k =? event_id y) (S1 ++ ids B) = false).
  { apply existsb_eqb_not_elem_of. unfold S1.
    intros [[Hin|Hin%list_elem_of_singleton]%elem_of_app|Hin]%elem_of_app.
    - apply ids_keepFirst_upcoming in Hin as (e & He & Hu & Hid).
      apply (Hfy e); [|done|done]. apply elem_of_app. by left.
    - apply (Hfy x); [|done|done]. apply elem_of_app. right. by left.
    - apply ids_keepFirst_upcoming in Hin as (e & He & Hu & Hid).
      apply (Hfy e); [|done|done]. apply elem_of_app. right. by right. }
  rewrite HyB. by eexists A, B, _.
Qed.

Lemma keptAt_inv (l : list EventData) (now : Z) (i : nat) (x : EventData) :
  l !! i = Some x -> keptAt l now i = true ->
  isUpcoming now x = true /\
  forall e, e ∈ take i l -> isUpcoming now e = true -> event_id e <> event_id x.
Proof.
  unfold keptAt. intros -> [Hx Hno]%andb_true_iff. split; [done|].
  intros e He Hu Heq. apply negb_true_iff in Hno.
  assert (Hex : existsb
    (fun other => isUpcoming now other && (event_id other =? event_id x))
    (take i l) = true); [|congruence].
  apply existsb_exists. exists e. split; [by apply list_elem_of_In|].
  rewrite Hu. simpl. by apply Z.eqb_eq.
Qed.

(** ** Properties of the reconciliation *)

(** C1. Every record in the output of the reconciliation has an end
    time that parses to an instant at or after [now]; no record of the
    output has an end time before [now]. *)
Theorem reconcile_end_time_at_or_after_now
    (l : list EventData) (now : Z) (e : EventData) :
  e ∈ reconcile l now ->
  (exists t, DateParse (end_time e) = Some t /\ now <= t) /\
  ~ (exists t, DateParse (end_time e) = Some t /\ t < now).
Proof.
  intros [_ Hu]%elem_of_reconcile. apply isUpcoming_spec in Hu as (t & Ht & Hle).
  split; [by exists t|]. intros (t' & Ht' & Hlt). rewrite Ht in Ht'.
  injection Ht' as <-. lia.
Qed.

(** C2, amended. The output of the reconciliation holds at most one
    record per identifier; every record of the output is the first
    record with its identifier among the input records that pass the
    temporal filter, whatever the fields of later records with that
    identifier; and every identifier borne by a record that passes the
    filter is in the output. *)
Theorem reconcile_unique_first_upcoming (l : list EventData) (now : Z) :
  NoDup (ids (reconcile l now)) /\
  Forall (fun r => firstWithId (event_id r) (upcomingEvents l now) = Some r)
         (reconcile l now) /\
  Forall (fun r => event_id r ∈ ids (reconcile l now)) (upcomingEvents l now).
Proof.
  rewrite reconcile_keepFirst. split; [apply keepFirst_NoDup|]. split.
  - apply Forall_forall. intros r Hr. by eapply keepFirst_first.
  - apply Forall_forall. intros r Hr. apply keepFirst_covers; [done|].
    by intros ?%elem_of_nil.
Qed.

(** C3. The reconciliation is the temporal filter followed by the
    de-duplication that keeps first occurrences, as the specification
    words them; hence a record that passes the filter is kept when every
    earlier record with its identifier is expired. *)
Theorem reconcile_filter_then_dedupe :
  (forall l now, reconcile l now = spec_reconcile DateParse l now) /\
  (forall l1 e l2 now,
      isUpcoming now e = true ->
      Forall (fun r => event_id r = event_id e -> isUpcoming now r = false) l1 ->
      e ∈ reconcile (l1 ++ e :: l2) now).
Proof.
  split.
  - intros l now. rewrite reconcile_keepFirst.
    unfold spec_reconcile, spec_dedupe, spec_temporalFilter, upcomingEvents.
    f_equal. apply List.filter_ext. intros r. unfold isUpcoming.
    destruct (DateParse (end_time r)) as [t|]; simpl; [|done].
    destruct (Z.leb_spec now t); symmetry.
    + by apply bool_decide_eq_true.
    + apply bool_decide_eq_false. lia.
  - intros l1 e l2 now He Hl1. rewrite Forall_forall in Hl1.
    rewrite reconcile_keepFirst, upcomingEvents_app, upcomingEvents_cons_true by done.
    rewrite keepFirst_app. simpl.
    set (A := keepFirst [] (upcomingEvents l1 now)).
    assert (HA : existsb (fun k => k =? event_id e) (ids A) = false).
    { apply existsb_eqb_not_elem_of.
      intros (r & Hr & Hu & Hid)%ids_keepFirst_upcoming.
      rewrite (Hl1 r Hr Hid) in Hu. done. }
    rewrite HA. apply elem_of_app. right. by left.
Qed.

(** C4. The reconciliation is idempotent: reconciling its output again
    with the same [now] gives the same list. *)
Theorem reconcile_idempotent (l : list EventData) (now : Z) :
  reconcile (reconcile l now) now = reconcile l now.
Proof.
  rewrite (reconcile_keepFirst (reconcile l now)).
  assert (Hf : upcomingEvents (reconcile l now) now = reconcile l now).
  { apply filter_all_pass. intros e He. by apply elem_of_reconcile in He as [_ ?]. }
  rewrite Hf. apply keepFirst_id.
  - rewrite reconcile_keepFirst. apply keepFirst_NoDup.
  - intros e _. by intros ?%elem_of_nil.
Qed.

(** C5. The reconciliation preserves the input order: when the records
    at input positions [i < j] are both kept, the record of position [i]
    comes before the record of position [j] in the output. *)
Theorem reconcile_preserves_order
    (l : list EventData) (now : Z) (i j : nat) (x y : EventData) :
  l !! i = Some x -> l !! j = Some y -> (i < j)%nat ->
  keptAt l now i = true -> keptAt l now j = true ->
  exists p q, (p < q)%nat /\
              reconcile l now !! p = Some x /\ reconcile l now !! q = Some y.
Proof.
  intros Hi Hj Hij Hki Hkj.
  destruct (keptAt_inv _ _ _ _ Hi Hki) as [Hx Hfx].
  destruct (keptAt_inv _ _ _ _ Hj Hkj) as [Hy Hfy].
  pose proof (take_drop_middle l j y Hj) as Hl.
  assert (Hi' : take j l !! i = Some x) by (by rewrite lookup_take_lt).
  pose proof (take_drop_middle _ _ _ Hi') as Hl'.
  rewrite take_take, Nat.min_l in Hl' by lia.
  rewrite <- Hl' in Hl, Hfy.
  destruct (reconcile_two (take i l) (drop (S i) (take j l)) (drop (S j) l)
              x y now Hx Hy Hfx Hfy) as (A & B & C & Heq).
  rewrite Hl in Heq. rewrite Heq.
  exists (length A), (length A + S (length B))%nat. split; [lia|]. split.
  - by apply list_lookup_middle.
  - change (A ++ x :: B ++ y :: C) with (A ++ (x :: B) ++ y :: C).
    rewrite app_assoc. apply list_lookup_middle.
    rewrite length_app. simpl. done.
Qed.

(** C6. The reconciliation is a total function, and a record whose end
    time does not parse is left out without effect on the rest: it is
    not in the output, the output is that of the input without it, and
    alone it gives the empty output. The fetch handler then stores the
    reconciled list and logs no error. *)
Theorem reconcile_excludes_unparseable
    (l1 l2 : list EventData) (e : EventData) (now : Z) :
  DateParse (end_time e) = None ->
  reconcile [e] now = [] /\
  (e ∉ reconcile (l1 ++ e :: l2) now) /\
  reconcile (l1 ++ e :: l2) now = reconcile (l1 ++ l2) now /\
  (forall st, userId st <> None ->
     let st' := fetchEventData now (FetchOk (Some (JArray (l1 ++ e :: l2)))) st in
     events st' = reconcile (l1 ++ l2) now /\ console st' = console st /\
     loading st' = false).
Proof.
  intros Hbad. pose proof (isUpcoming_invalid now e Hbad) as Hu.
  assert (Heq : reconcile (l1 ++ e :: l2) now = reconcile (l1 ++ l2) now).
  { rewrite !reconcile_keepFirst, !upcomingEvents_app.
    by rewrite upcomingEvents_cons_false. }
  split; [|split; [|split; [done|]]].
  - rewrite reconcile_keepFirst, upcomingEvents_cons_false by done. done.
  - intros [_ Hu']%elem_of_reconcile. congruence.
  - intros st Hst. unfold fetchEventData. destruct (userId st); [|done]. simpl.
    by rewrite Heq.
Qed.

(** C7, amended. Handling a payload that is not an array leaves the
    held event list as it was before the fetch: what is displayed after
    the cycle is the list held before it, which is empty when that list
    was empty (as on the first fetch). *)
Theorem fetchEventData_non_array_keeps_events (now : Z) (st : State) :
  let st' := fetchEventData now (FetchOk (Some JOther)) st in
  events st' = events st /\
  (userId st <> None ->
     displayed st' = events st /\ loading st' = false /\
     console st' = console st ++ ["Invalid data format:"]) /\
  (events st = [] -> displayed st' = []).
Proof.
  unfold fetchEventData, displayed, render.
  destruct st as [ev ld uid con al]. simpl. destruct uid as [u|]; simpl.
  - split; [done|]. split.
    + intros _. by destruct ev.
    + by intros ->.
  - split; [done|]. split; [done|]. intros ->. by destruct ld.
Qed.

(** C10. The output of the reconciliation is a subsequence of the input:
    every output record is one of the input records, and the output is
    not longer than the input. *)
Theorem reconcile_subsequence (l : list EventData) (now : Z) :
  reconcile l now `sublist_of` l /\
  Forall (fun r => r ∈ l) (reconcile l now) /\
  (length (reconcile l now) <= length l)%nat.
Proof.
  pose proof (reconcile_sublist l now) as Hsub. split; [done|]. split.
  - apply Forall_forall. intros r Hr. by eapply sublist_subseteq.
  - by apply sublist_length.
Qed.

End ReconcileFacts.

(** Every record of the output sits at a kept position of the input, so
    [keptAt] describes exactly the input records that are output. *)
Lemma find_filter_position {A} (f p : A -> bool) (l : list A) (e : A) :
  List.find f (List.filter p l) = Some e ->
  exists i, l !! i = Some e /\ p e = true /\
            existsb (fun a => p a && f a) (take i l) = false.
Proof.
  induction l as [|a l IH]; simpl; [done|].
  destruct (p a) eqn:Hp; simpl.
  - destruct (f a) eqn:Hf.
    + intros [= <-]. by exists 0%nat.
    + intros (i & Hi & He & Hex)%IH. exists (S i). simpl. by rewrite Hp, Hf.
  - intros (i & Hi & He & Hex)%IH. exists (S i). simpl. by rewrite Hp.
Qed.

Lemma reconcile_kept_position
    (DateParse : string -> Date.t) (l : list EventData) (now : Z) (e : EventData) :
  e ∈ reconcile DateParse l now ->
  exists i, l !! i = Some e /\ keptAt DateParse l now i = true.
Proof.
  rewrite reconcile_keepFirst. intros Hin%keepFirst_first.
  apply find_filter_position in Hin as (i & Hi & He & Hex).
  exists i. split; [done|]. unfold keptAt. rewrite Hi, He. simpl.
  by rewrite Hex.
Qed.

(** ** Deletion *)

(** C8. A failed deletion (the server answers with a failure or the
    request throws) leaves the held event list as it was; the user gets
    an error alert. *)
Theorem deleteEvent_failure_keeps_events
    (eventId : Z) (resp : DeleteResponse) (st : State) :
  resp <> DeleteOk ->
  events (deleteEvent eventId resp st) = events st /\
  loading (deleteEvent eventId resp st) = loading st /\
  userId (deleteEvent eventId resp st) = userId st /\
  exists msg, alerts (deleteEvent eventId resp st) = alerts st ++ [("Error", msg)].
Proof.
  intros Hfail. destruct resp as [| |[message|]]; simpl; [|done| |];
    repeat split; eauto.
Qed.

(** C9. A successful deletion of an identifier removes from the held
    list every record that bears it and nothing else: the records with
    other identifiers stay, unchanged and in their order. *)
Theorem deleteEvent_success_removes_id (eventId : Z) (st : State) :
  let kept := events (deleteEvent eventId DeleteOk st) in
  kept = List.filter (fun event => negb (event_id event =? eventId)) (events st) /\
  (forall e, e ∈ kept <-> e ∈ events st /\ event_id e <> eventId) /\
  (kept `sublist_of` events st) /\
  (eventId ∉ ids kept) /\
  (eventId ∉ ids (events st) -> kept = events st).
Proof.
  simpl. split; [done|].
  assert (Hmem : forall e,
    e ∈ List.filter (fun event => negb (event_id event =? eventId)) (events st)
    <-> e ∈ events st /\ event_id e <> eventId).
  { intros e. rewrite elem_of_filter_bool, negb_true_iff, Z.eqb_neq. done. }
  split; [done|]. split; [apply filter_sublist_of|]. split.
  - intros (e & Heq & [_ Hne]%Hmem)%list_elem_of_fmap. done.
  - intros Hno. apply filter_all_pass. intros e He.
    rewrite negb_true_iff, Z.eqb_neq. intros Heq. apply Hno.
    apply list_elem_of_fmap. by exists e.
Qed.

(** ** Worked instances *)

Lemma reconcile_end_time_at_or_after_now_witness :
  sampleEvent 1 "a" "2099-01-01"
    ∈ reconcile parseDateOnly
        [sampleEvent 1 "a" "2099-01-01"; sampleEvent 2 "c" "2000-01-01"] now2024 /\
  (exists t, parseDateOnly "2099-01-01" = Some t /\ now2024 <= t) /\
  ~ (exists t, parseDateOnly "2099-01-01" = Some t /\ t < now2024).
Proof.
  assert (Hin : sampleEvent 1 "a" "2099-01-01"
    ∈ reconcile parseDateOnly
        [sampleEvent 1 "a" "2099-01-01"; sampleEvent 2 "c" "2000-01-01"] now2024).
  { vm_compute. left. }
  split; [exact Hin|].
  exact (reconcile_end_time_at_or_after_now parseDateOnly _ _ _ Hin).
Defined.

(** Keeping the first record of the raw input fails: the first record
    with identifier 1 is expired, and the record kept for identifier 1 is
    the second one. *)
Lemma reconcile_not_first_input_occurrence :
  ~ keepsFirstInputOccurrence parseDateOnly
      [sampleEvent 1 "a" "2000-01-01"; sampleEvent 1 "b" "2099-01-01"] now2024.
Proof.
  unfold keepsFirstInputOccurrence. intros H.
  assert (Hout : reconcile parseDateOnly
      [sampleEvent 1 "a" "2000-01-01"; sampleEvent 1 "b" "2099-01-01"] now2024
      = [sampleEvent 1 "b" "2099-01-01"]) by reflexivity.
  rewrite Hout in H. apply Forall_inv in H. vm_compute in H. discriminate H.
Qed.

Lemma reconcile_filter_then_dedupe_witness :
  isUpcoming parseDateOnly now2024 (sampleEvent 1 "b" "2099-01-01") = true /\
  isUpcoming parseDateOnly now2024 (sampleEvent 1 "a" "2000-01-01") = false /\
  sampleEvent 1 "b" "2099-01-01"
    ∈ reconcile parseDateOnly
        ([sampleEvent 1 "a" "2000-01-01"] ++ sampleEvent 1 "b" "2099-01-01" :: [])
        now2024.
Proof.
  split; [reflexivity|]. split; [reflexivity|].
  apply (proj2 (reconcile_filter_then_dedupe parseDateOnly)).
  - reflexivity.
  - repeat constructor.
Defined.

Lemma reconcile_preserves_order_witness :
  exists p q, (p < q)%nat /\
    reconcile parseDateOnly
      [sampleEvent 1 "a" "2099-01-01"; sampleEvent 1 "b" "2099-06-01";
       sampleEvent 2 "c" "2000-01-01"; sampleEvent 3 "d" "2099-01-01"] now2024
      !! p = Some (sampleEvent 1 "a" "2099-01-01") /\
    reconcile parseDateOnly
      [sampleEvent 1 "a" "2099-01-01"; sampleEvent 1 "b" "2099-06-01";
       sampleEvent 2 "c" "2000-01-01"; sampleEvent 3 "d" "2099-01-01"] now2024
      !! q = Some (sampleEvent 3 "d" "2099-01-01").
Proof.
  apply (reconcile_preserves_order parseDateOnly _ now2024 0%nat 3%nat).
  - reflexivity.
  - reflexivity.
  - lia.
  - reflexivity.
  - reflexivity.
Defined.

Lemma reconcile_excludes_unparseable_witness :
  parseDateOnly (end_time (sampleEvent 2 "b" "invalid")) = None /\
  reconcile parseDateOnly [sampleEvent 2 "b" "invalid"] now2024 = [] /\
  reconcile parseDateOnly
    ([sampleEvent 1 "a" "2099-01-01"] ++ sampleEvent 2 "b" "invalid" :: []) now2024
  = reconcile parseDateOnly ([sampleEvent 1 "a" "2099-01-01"] ++ []) now2024.
Proof.
  split; [reflexivity|].
  destruct (reconcile_excludes_unparseable parseDateOnly
              [sampleEvent 1 "a" "2099-01-01"] [] (sampleEvent 2 "b" "invalid")
              now2024 eq_refl) as (H1 & _ & H3 & _).
  split; [exact H1 | exact H3].
Defined.

(** An empty display after a non-array payload fails: after one
    successful fetch, a fetch whose payload is not an array leaves the
    fetched record on screen. *)
Lemma fetchEventData_non_array_displays_stale :
  let e := sampleEvent 1 "a" "2099-01-01" in
  let st0 := mkState [] true (Some "7") [] [] in
  let st1 := fetchEventData parseDateOnly now2024 (FetchOk (Some (JArray [e]))) st0 in
  let st2 := fetchEventData parseDateOnly now2024 (FetchOk (Some JOther)) st1 in
  displayed st2 = [e] /\ displayed st2 <> [].
Proof. split; [reflexivity | discriminate]. Qed.

Lemma deleteEvent_failure_keeps_events_witness :
  DeleteNotOk (Some (Some "Event not found")) <> DeleteOk /\
  events (deleteEvent 1 (DeleteNotOk (Some (Some "Event not found")))
            (sampleState [sampleEvent 1 "a" "2099-01-01"]))
  = [sampleEvent 1 "a" "2099-01-01"].
Proof.
  assert (Hne : DeleteNotOk (Some (Some "Event not found")) <> DeleteOk)
    by discriminate.
  split; [exact Hne|].
  exact (proj1 (deleteEvent_failure_keeps_events 1 _
                  (sampleState [sampleEvent 1 "a" "2099-01-01"]) Hne)).
Defined.

Example deleteEvent_failure_message :
  alerts (deleteEvent 1 (DeleteNotOk (Some (Some "Event not found")))
            (sampleState []))
  = [("Error", "Event not found")]
  /\ alerts (deleteEvent 1 (DeleteNotOk (Some None)) (sampleState []))
     = [("Error", "Failed to delete the event.")].
Proof. split; reflexivity. Qed.

Example deleteEvent_success_example :
  events (deleteEvent 1 DeleteOk
            (sampleState [sampleEvent 1 "a" "2099-01-01"; sampleEvent 2 "b" "2099-01-01"]))
  = [sampleEvent 2 "b" "2099-01-01"].
Proof. reflexivity. Qed.

(** ** Further properties of [removeDuplicateEvents] *)

(** The map built by the loop, entry by entry: from a map [m] the loop
    appends one entry per record of [l] with a new identifier, keyed by
    that identifier, and changes no entry of [m]. *)
Lemma removeDuplicateEvents_loop_entries (l : list EventData) (m : JSMap.t EventData) :
  fold_left removeDuplicateEvents_step l m
  = m ++ map (fun e => (event_id e, e)) (keepFirst (JSMap.keys m) l).
Proof.
  revert m. induction l as [|e l IH]; intros m; simpl.
  - by rewrite app_nil_r.
  - rewrite IH. unfold removeDuplicateEvents_step. rewrite JSMap_has_keys.
    destruct (existsb _ (JSMap.keys m)) eqn:Hseen; simpl; [done|].
    rewrite JSMap_set_fresh by (by rewrite JSMap_has_keys).
    by rewrite JSMap_keys_snoc, <- app_assoc.
Qed.

Lemma keepFirst_ids_iff (l : list EventData) (k : Z) :
  k ∈ ids (keepFirst [] l) <-> k ∈ ids l.
Proof.
  unfold ids. split.
  - intros (e & -> & He)%list_elem_of_fmap. apply list_elem_of_fmap.
    exists e. split; [done|]. by eapply keepFirst_elem_of.
  - intros (e & -> & He)%list_elem_of_fmap.
    apply keepFirst_covers; [done|]. by intros ?%elem_of_nil.
Qed.

(** Records whose identifier is in [s] can be filtered out beforehand
    instead of being looked up in the seen identifiers. *)
Lemma keepFirst_filter_seen (s s' : list Z) (l : list EventData) :
  keepFirst (s ++ s') l
  = keepFirst s'
      (List.filter (fun e => negb (existsb (fun k => k =? event_id e) s)) l).
Proof.
  revert s'. induction l as [|e l IH]; intros s'; simpl; [done|].
  rewrite existsb_app.
  destruct (existsb _ s) eqn:Hs; simpl; [apply IH|].
  destruct (existsb _ s') eqn:Hs'; [apply IH|].
  f_equal. rewrite <- app_assoc. apply IH.
Qed.

Lemma existsb_eqb_ext (k : Z) (s1 s2 : list Z) :
  (forall j, j ∈ s1 <-> j ∈ s2) ->
  existsb (fun k' => k' =? k) s1 = existsb (fun k' => k' =? k) s2.
Proof.
  intros Hiff. apply eq_true_iff_eq. rewrite !existsb_eqb_elem_of. apply Hiff.
Qed.

(** X1. De-duplicating twice is de-duplicating once. *)
Theorem removeDuplicateEvents_idempotent (l : list EventData) :
  removeDuplicateEvents (removeDuplicateEvents l) = removeDuplicateEvents l.
Proof.
  rewrite (removeDuplicateEvents_keepFirst (removeDuplicateEvents l)).
  apply keepFirst_id.
  - rewrite removeDuplicateEvents_keepFirst. apply keepFirst_NoDup.
  - intros e _. by intros ?%elem_of_nil.
Qed.

(** X2. The lists that [removeDuplicateEvents] returns unchanged are
    exactly the lists without a repeated identifier. *)
Theorem removeDuplicateEvents_fixpoint (l : list EventData) :
  removeDuplicateEvents l = l <-> NoDup (ids l).
Proof.
  rewrite removeDuplicateEvents_keepFirst. split.
  - intros <-. apply keepFirst_NoDup.
  - intros Hnd. apply keepFirst_id; [done|]. intros e _. by intros ?%elem_of_nil.
Qed.

(** X3. [removeDuplicateEvents] loses no identifier: the identifiers of
    its output are those of its input, each once, so that the output has
    as many records as the input has distinct identifiers. *)
Theorem removeDuplicateEvents_ids (l : list EventData) :
  (forall k, k ∈ ids (removeDuplicateEvents l) <-> k ∈ ids l) /\
  ids (removeDuplicateEvents l) ≡ₚ remove_dups (ids l) /\
  length (removeDuplicateEvents l) = length (remove_dups (ids l)).
Proof.
  rewrite removeDuplicateEvents_keepFirst.
  assert (Hperm : ids (keepFirst [] l) ≡ₚ remove_dups (ids l)).
  { apply NoDup_Permutation.
    - apply keepFirst_NoDup.
    - apply NoDup_remove_dups.
    - intros k. rewrite elem_of_remove_dups. apply keepFirst_ids_iff. }
  split; [apply keepFirst_ids_iff|]. split; [done|].
  rewrite <- Hperm. unfold ids. by rewrite length_map.
Qed.

(** X4. De-duplicating a concatenation: the output for the first part
    comes first, unchanged, followed by the output for the records of the
    second part whose identifier does not occur in the first part. *)
Theorem removeDuplicateEvents_app (l1 l2 : list EventData) :
  removeDuplicateEvents (l1 ++ l2)
  = removeDuplicateEvents l1
    ++ removeDuplicateEvents
         (List.filter
            (fun e => negb (existsb (fun k => k =? event_id e) (ids l1))) l2).
Proof.
  rewrite !removeDuplicateEvents_keepFirst, keepFirst_app. f_equal. simpl.
  rewrite <- (app_nil_r (ids (keepFirst [] l1))), keepFirst_filter_seen.
  f_equal. apply List.filter_ext. intros e. f_equal.
  apply existsb_eqb_ext. intros j. apply keepFirst_ids_iff.
Qed.

(** X5. Invariant of the loop of [removeDuplicateEvents]: the map built
    from any input has pairwise distinct keys, every entry is keyed by the
    identifier of its record, and processing further records only appends
    entries: no entry is ever overwritten or moved. *)
Theorem removeDuplicateEvents_map_invariant (l l' : list EventData) :
  let m := fold_left removeDuplicateEvents_step l JSMap.empty in
  NoDup (JSMap.keys m) /\
  Forall (fun kv => fst kv = event_id (snd kv)) m /\
  exists ext, fold_left removeDuplicateEvents_step (l ++ l') JSMap.empty = m ++ ext.
Proof.
  simpl. rewrite fold_left_app. rewrite (removeDuplicateEvents_loop_entries l).
  simpl. split; [|split].
  - unfold JSMap.keys. rewrite map_map. simpl. apply (keepFirst_NoDup [] l).
  - apply Forall_forall. intros kv (e & -> & _)%list_elem_of_fmap. done.
  - rewrite removeDuplicateEvents_loop_entries. by eexists.
Qed.

(** ** Further properties of the reconciliation *)

Lemma filter_sublist_mono {A} (f g : A -> bool) (l : list A) :
  (forall a, f a = true -> g a = true) ->
  List.filter f l `sublist_of` List.filter g l.
Proof.
  intros Hfg. induction l as [|a l IH]; simpl; [constructor|].
  destruct (f a) eqn:Hf.
  - rewrite (Hfg a Hf). by constructor.
  - destruct (g a); [by constructor | done].
Qed.

Lemma filter_all_fail {A} (f : A -> bool) (l : list A) :
  List.filter f l = [] <-> Forall (fun a => f a = false) l.
Proof.
  induction l as [|a l IH]; simpl.
  - split; [constructor | done].
  - destruct (f a) eqn:Hf.
    + split; [done|]. intros H%Forall_inv. congruence.
    + rewrite IH. split; [by constructor | by intros ?%Forall_inv_tail].
Qed.

Lemma filter_comm {A} (f g : A -> bool) (l : list A) :
  List.filter f (List.filter g l) = List.filter g (List.filter f l).
Proof.
  induction l as [|a l IH]; simpl; [done|].
  destruct (f a) eqn:Hf, (g a) eqn:Hg; simpl; rewrite ?Hf, ?Hg, IH; done.
Qed.

(** Removing the records of one identifier commutes with the
    de-duplication, whatever was seen of that identifier. *)
Lemma keepFirst_filter_id (k : Z) (l : list EventData) (seen seen' : list Z) :
  (forall j, j <> k -> (j ∈ seen <-> j ∈ seen')) ->
  List.filter (hasOtherId k) (keepFirst seen l)
  = keepFirst seen' (List.filter (hasOtherId k) l).
Proof.
  revert seen seen'. induction l as [|e l IH]; intros seen seen' Hiff; simpl; [done|].
  unfold hasOtherId at 2. destruct (Z.eqb_spec (event_id e) k) as [Hk|Hk]; simpl.
  - destruct (existsb _ seen) eqn:Hs; [by apply IH|].
    simpl. unfold hasOtherId at 1. rewrite Hk, Z.eqb_refl. simpl.
    apply IH. intros j Hj. rewrite elem_of_app, list_elem_of_singleton.
    rewrite <- (Hiff j Hj). intuition congruence.
  - assert (Hex : existsb (fun k' => k' =? event_id e) seen
                  = existsb (fun k' => k' =? event_id e) seen').
    { apply eq_true_iff_eq. rewrite !existsb_eqb_elem_of. by apply Hiff. }
    rewrite <- Hex. destruct (existsb _ seen) eqn:Hs; [by apply IH|].
    simpl. unfold hasOtherId at 1.
    destruct (Z.eqb_spec (event_id e) k) as [|_]; [done|]. simpl. f_equal.
    apply IH. intros j Hj. rewrite !elem_of_app. by rewrite (Hiff j Hj).
Qed.

Section ReconcileMore.

Variable DateParse : string -> Date.t.

Local Abbreviation isUpcoming := (isUpcoming DateParse).
Local Abbreviation upcomingEvents := (upcomingEvents DateParse).
Local Abbreviation reconcile := (reconcile DateParse).
Local Abbreviation keptAt := (keptAt DateParse).
Local Abbreviation fetchEventData := (fetchEventData DateParse).

Lemma isUpcoming_earlier (now1 now2 : Z) (e : EventData) :
  now1 <= now2 -> isUpcoming now2 e = true -> isUpcoming now1 e = true.
Proof.
  intros Hle (t & Ht & Hnow)%isUpcoming_spec. apply isUpcoming_spec.
  exists t. split; [done|lia].
Qed.

(** A record that passes the filter and is the first such record with its
    identifier is in the output. *)
Lemma reconcile_keeps (l1 l2 : list EventData) (e : EventData) (now : Z) :
  isUpcoming now e = true ->
  (forall r, r ∈ l1 -> isUpcoming now r = true -> event_id r <> event_id e) ->
  e ∈ reconcile (l1 ++ e :: l2) now.
Proof.
  intros He Hl1.
  rewrite reconcile_keepFirst, upcomingEvents_app, upcomingEvents_cons_true by done.
  rewrite keepFirst_app. simpl.
  set (A := keepFirst [] (upcomingEvents l1 now)).
  assert (HA : existsb (fun k => k =? event_id e) (ids A) = false).
  { apply existsb_eqb_not_elem_of.
    intros (r & Hr & Hu & Hid)%ids_keepFirst_upcoming. by apply (Hl1 r). }
  rewrite HA. apply elem_of_app. right. by left.
Qed.

(** X6. As time passes no identifier appears: for [now1 <= now2] the
    records that pass the filter at [now2] are a subsequence of those that
    pass at [now1], and every identifier of the output at [now2] is an
    identifier of the output at [now1]. *)
Theorem reconcile_later_now (l : list EventData) (now1 now2 : Z) :
  now1 <= now2 ->
  (upcomingEvents l now2 `sublist_of` upcomingEvents l now1) /\
  (forall k, k ∈ ids (reconcile l now2) -> k ∈ ids (reconcile l now1)).
Proof.
  intros Hle. split.
  - apply filter_sublist_mono. intros e. by apply isUpcoming_earlier.
  - intros k. rewrite (reconcile_keepFirst DateParse l now2).
    intros (e & He & Hu & <-)%ids_keepFirst_upcoming.
    rewrite reconcile_keepFirst. apply keepFirst_covers.
    + apply elem_of_upcomingEvents. split; [done|]. by eapply isUpcoming_earlier.
    + by intros ?%elem_of_nil.
Qed.

(** X7. The output is empty exactly when no input record passes the
    temporal filter (all expired or unparseable, or no record at all). *)
Theorem reconcile_empty_iff (l : list EventData) (now : Z) :
  reconcile l now = [] <-> Forall (fun e => isUpcoming now e = false) l.
Proof.
  rewrite reconcile_keepFirst. rewrite <- (filter_all_fail (isUpcoming now) l).
  fold (upcomingEvents l now). split.
  - intros Hnil. destruct (upcomingEvents l now) as [|e u] eqn:Hu; [done|].
    simpl in Hnil. done.
  - by intros ->.
Qed.

(** X8. The records of the output are exactly the input records at kept
    positions: those that pass the filter and are preceded by no record
    that passes the filter and bears the same identifier. *)
Theorem reconcile_elem_of_iff (l : list EventData) (now : Z) (e : EventData) :
  e ∈ reconcile l now <-> exists i, l !! i = Some e /\ keptAt l now i = true.
Proof.
  split; [apply reconcile_kept_position|].
  intros (i & Hi & Hk). destruct (keptAt_inv _ _ _ _ _ Hi Hk) as [He Hfirst].
  rewrite <- (take_drop_middle l i e Hi). by apply reconcile_keeps.
Qed.

(** X9. Deleting an identifier commutes with the reconciliation: removing
    the records of an identifier from the reconciled list gives the
    reconciliation of the input without these records. Hence a successful
    deletion after a fetch leaves the list that a fetch of the payload
    without that identifier would have stored. *)
Theorem reconcile_delete_commute (l : list EventData) (now eventId : Z) :
  List.filter (hasOtherId eventId) (reconcile l now)
  = reconcile (List.filter (hasOtherId eventId) l) now /\
  (forall st, userId st <> None ->
     events (deleteEvent eventId DeleteOk
               (fetchEventData now (FetchOk (Some (JArray l))) st))
     = events (fetchEventData now
                 (FetchOk (Some (JArray (List.filter (hasOtherId eventId) l)))) st)).
Proof.
  assert (Heq : List.filter (hasOtherId eventId) (reconcile l now)
                = reconcile (List.filter (hasOtherId eventId) l) now).
  { rewrite !reconcile_keepFirst. unfold upcomingEvents.
    rewrite (filter_comm (isUpcoming now)). by apply keepFirst_filter_id. }
  split; [done|]. intros st Hst. unfold fetchEventData.
  destruct (userId st); [|done]. simpl. exact Heq.
Qed.

End ReconcileMore.

(** ** Further properties of the handlers *)

Lemma filter_filter_same {A} (f : A -> bool) (l : list A) :
  List.filter f (List.filter f l) = List.filter f l.
Proof. apply filter_all_pass. by intros a [_ ?]%elem_of_filter_bool. Qed.

Lemma filter_hasOtherId_absent (k : Z) (l : list EventData) :
  k ∉ ids l -> List.filter (hasOtherId k) l = l.
Proof.
  intros Hno. apply filter_all_pass. intros e He. unfold hasOtherId.
  rewrite negb_true_iff, Z.eqb_neq. intros Heq. apply Hno.
  unfold ids. apply list_elem_of_fmap. by exists e.
Qed.

Lemma filter_hasOtherId_length (k : Z) (l : list EventData) :
  NoDup (ids l) -> k ∈ ids l ->
  length l = S (length (List.filter (hasOtherId k) l)).
Proof.
  induction l as [|e l IH]; simpl; intros Hnd Hin; [by apply elem_of_nil in Hin|].
  apply NoDup_cons in Hnd as [Hne Hnd]. unfold hasOtherId at 1.
  destruct (Z.eqb_spec (event_id e) k) as [Hk|Hk]; simpl.
  - rewrite filter_hasOtherId_absent; [done|]. by rewrite <- Hk.
  - f_equal. apply IH; [done|]. apply elem_of_cons in Hin as [Heq|Hin]; [|done].
    by symmetry in Heq.
Qed.

Lemma ids_filter_NoDup (f : EventData -> bool) (l : list EventData) :
  NoDup (ids l) -> NoDup (ids (List.filter f l)).
Proof.
  intros Hnd. eapply sublist_NoDup; [exact Hnd|].
  unfold ids. apply (fmap_sublist event_id), filter_sublist_of.
Qed.

(** X15. Successful deletions compose: deleting an identifier twice
    leaves the list of the first deletion, and deletions of two
    identifiers give the same list in either order. *)
Theorem deleteEvent_compose (a b : Z) (st : State) :
  events (deleteEvent a DeleteOk (deleteEvent a DeleteOk st))
  = events (deleteEvent a DeleteOk st) /\
  events (deleteEvent a DeleteOk (deleteEvent b DeleteOk st))
  = events (deleteEvent b DeleteOk (deleteEvent a DeleteOk st)).
Proof.
  simpl. split; [apply filter_filter_same | apply filter_comm].
Qed.


(** X17. When the held records have pairwise distinct identifiers, a
    successful deletion of an identifier that is held removes exactly one
    record. *)
Theorem deleteEvent_removes_one (eventId : Z) (st : State) :
  NoDup (ids (events st)) -> eventId ∈ ids (events st) ->
  length (events st) = S (length (events (deleteEvent eventId DeleteOk st))).
Proof. intros Hnd Hin. simpl. by apply filter_hasOtherId_length. Qed.

(** X14. The confirmation dialog is always raised first, and the held
    list changes only when the user pressed "Delete", the server accepted
    the deletion and a record with that identifier was held. *)
Theorem handleDelete_changes_only_when_confirmed
    (eventId : Z) (choice : AlertChoice) (resp : DeleteResponse) (st : State) :
  (alerts st ++ [("Delete Event", "Are you sure you want to delete this event?")])
    `prefix_of` alerts (handleDelete eventId choice resp st) /\
  (events (handleDelete eventId choice resp st) <> events st ->
   choice = PressDelete /\ resp = DeleteOk /\ eventId ∈ ids (events st)).
Proof.
  split.
  - destruct choice; simpl; [done| |done].
    destruct resp as [| |[m|]]; simpl; by eexists.
  - destruct choice; simpl; [done| |done].
    destruct resp as [| |[m|]]; simpl; [done| |done|done].
    intros Hne. split; [done|]. split; [done|].
    destruct (decide (eventId ∈ ids (events st))) as [|Hno]; [done|].
    exfalso. apply Hne. by apply filter_hasOtherId_absent.
Qed.

Section Handlers.

Variable DateParse : string -> Date.t.

Local Abbreviation reconcile := (reconcile DateParse).
Local Abbreviation fetchEventData := (fetchEventData DateParse).
Local Abbreviation step := (step DateParse).
Local Abbreviation run := (run DateParse).

(** How one handler execution changes the held list: not at all, to the
    reconciliation of a fetched array, or by removing one identifier. *)
Lemma events_step_cases (st : State) (a : Action) :
  events (step st a) = events st \/
  (exists now data, a = ActFetch now (FetchOk (Some (JArray data))) /\
                    events (step st a) = reconcile data now) \/
  (exists k, events (step st a) = List.filter (hasOtherId k) (events st)).
Proof.
  destruct a as [res|now resp|k choice resp]; simpl.
  - left. by destruct res as [[id|]|].
  - unfold fetchEventData.
    destruct (userId st) eqn:Hu; [|by left].
    destruct resp as [| |[[data|]|]]; simpl; try by left.
    right. left. by exists now, data.
  - destruct choice; simpl; try by left.
    destruct resp as [| |[m|]]; simpl; try by left.
    right. right. by exists k.
Qed.

(** X10. A fetch cycle never touches the user identifier or the alerts;
    without a user identifier it does nothing at all, and with one it ends
    with the loading flag cleared, whatever the response. *)
Theorem fetchEventData_frame (now : Z) (resp : FetchResponse) (st : State) :
  userId (fetchEventData now resp st) = userId st /\
  alerts (fetchEventData now resp st) = alerts st /\
  (userId st = None -> fetchEventData now resp st = st) /\
  (userId st <> None -> loading (fetchEventData now resp st) = false).
Proof.
  unfold fetchEventData. destruct st as [ev ld [u|] con al]; simpl.
  - destruct resp as [| |[[data|]|]]; simpl; done.
  - done.
Qed.

(** X11. On every response other than an array payload (rejected fetch,
    HTTP error, unreadable body, non-array body) the held list is kept and
    exactly one error is logged to the console. *)
Theorem fetchEventData_failure_keeps_events
    (now : Z) (resp : FetchResponse) (st : State) :
  (forall data, resp <> FetchOk (Some (JArray data))) ->
  userId st <> None ->
  events (fetchEventData now resp st) = events st /\
  exists msg, console (fetchEventData now resp st) = console st ++ [msg].
Proof.
  intros Hresp Hu. unfold fetchEventData. destruct (userId st); [|done].
  destruct resp as [| |[[data|]|]]; simpl; try (split; [done|by eexists]).
  by destruct (Hresp data).
Qed.

(** X12. After the user identifier was read and one fetch cycle ran, the
    loading flag is cleared, whatever the storage and the server
    answered: the screen does not stay on "Loading...". *)
Theorem mount_clears_loading
    (res : StorageResult) (now : Z) (resp : FetchResponse) (st : State) :
  loading (fetchEventData now resp (getUserId res st)) = false /\
  render (fetchEventData now resp (getUserId res st)) <> LoadingText.
Proof.
  assert (H : loading (fetchEventData now resp (getUserId res st)) = false).
  { unfold fetchEventData.
    destruct st as [ev ld u con al], res as [[id|]|]; simpl.
    - destruct resp as [| |[[data|]|]]; done.
    - destruct u; [destruct resp as [| |[[data|]|]]; done | done].
    - destruct u; [destruct resp as [| |[[data|]|]]; done | done]. }
  split; [done|]. unfold render. rewrite H. by destruct (_ <? _)%nat.
Qed.

(** X13. When no user identifier is stored (or reading it throws), no
    run of fetch cycles and deletions ever shows an event: the screen
    shows "No events found." throughout. *)
Theorem no_user_id_no_events (res : StorageResult) (acts : list Action) :
  (forall id, res <> StorageItem (Some id)) ->
  (forall r, ActGetUserId r ∉ acts) ->
  render (run acts (getUserId res initialState)) = NoEventsFound /\
  userId (run acts (getUserId res initialState)) = None.
Proof.
  intros Hres Hacts.
  assert (Hinv : forall acts st,
            (forall r, ActGetUserId r ∉ acts) ->
            userId st = None -> events st = [] -> loading st = false ->
            userId (run acts st) = None /\ events (run acts st) = [] /\
            loading (run acts st) = false).
  { clear. induction acts as [|a acts IH]; intros st Hno Hu He Hl; [done|].
    simpl. apply IH.
    - intros r Hr. apply (Hno r). by right.
    - destruct a as [r|now resp|k choice resp]; simpl.
      + destruct (Hno r). by left.
      + unfold fetchEventData. by rewrite Hu.
      + destruct choice; simpl; try done. by destruct resp as [| |[m|]].
    - destruct a as [r|now resp|k choice resp]; simpl.
      + destruct (Hno r). by left.
      + unfold fetchEventData. by rewrite Hu.
      + destruct choice; simpl; try done.
        destruct resp as [| |[m|]]; simpl; try done. by rewrite He.
    - destruct a as [r|now resp|k choice resp]; simpl.
      + destruct (Hno r). by left.
      + unfold fetchEventData. by rewrite Hu.
      + destruct choice; simpl; try done. by destruct resp as [| |[m|]]. }
  destruct (Hinv acts (getUserId res initialState) Hacts) as (Hu & He & Hl).
  - destruct res as [[id|]|]; [by destruct (Hres id)|done|done].
  - by destruct res as [[id|]|].
  - destruct res as [[id|]|]; [by destruct (Hres id)|done|done].
  - split; [|done]. unfold render. by rewrite Hl, He.
Qed.

(** X18. In every state reached from the initial state, the held records
    have pairwise distinct identifiers, and so have the keys of the cards
    on screen. *)
Theorem run_unique_ids (acts : list Action) :
  NoDup (ids (events (run acts initialState))) /\
  NoDup (map card_key (cards (run acts initialState))).
Proof.
  assert (Hinv : forall acts st,
            NoDup (ids (events st)) -> NoDup (ids (events (run acts st)))).
  { clear. induction acts as [|a acts IH]; intros st Hnd; [done|].
    simpl. apply IH.
    destruct (events_step_cases st a) as [->|[(now & data & _ & ->)|(k & ->)]].
    - done.
    - rewrite reconcile_keepFirst. apply keepFirst_NoDup.
    - by apply ids_filter_NoDup. }
  assert (H : NoDup (ids (events (run acts initialState)))).
  { apply Hinv. constructor. }
  split; [done|]. unfold cards, render.
  destruct (loading _); [constructor|].
  destruct (_ <? _)%nat; [|constructor].
  by rewrite map_map.
Qed.

(** X19. The screen invents no record: every record held in a state
    reached from the initial state is, field for field, an element of an
    array payload received earlier in the run. *)
Theorem run_provenance (acts : list Action) (e : EventData) :
  e ∈ events (run acts initialState) -> e ∈ fetchedRecords acts.
Proof.
  assert (Hinv : forall acts st,
            e ∈ events (run acts st) -> e ∈ events st \/ e ∈ fetchedRecords acts).
  { clear. induction acts as [|a acts IH]; intros st; [by left|].
    simpl. intros [Hin|Hin]%IH.
    - destruct (events_step_cases st a) as [Heq|[(now & data & -> & Heq)|(k & Heq)]];
        rewrite Heq in Hin.
      + by left.
      + right. unfold fetchedRecords. simpl. apply elem_of_app. left.
        by apply elem_of_reconcile in Hin as [? _].
      + left. by apply elem_of_filter_bool in Hin as [? _].
    - right. unfold fetchedRecords. simpl. apply elem_of_app. by right. }
  intros [Hin|Hin]%Hinv; [|done]. by apply elem_of_nil in Hin.
Qed.

End Handlers.

(** ** Worked instances of the further properties *)

Lemma reconcile_later_now_witness :
  now2024 <= 1893456000000 /\
  forall k,
    k ∈ ids (reconcile parseDateOnly
               [sampleEvent 1 "a" "2025-01-01"; sampleEvent 2 "b" "2099-01-01"]
               1893456000000) ->
    k ∈ ids (reconcile parseDateOnly
               [sampleEvent 1 "a" "2025-01-01"; sampleEvent 2 "b" "2099-01-01"]
               now2024).
Proof.
  assert (Hle : now2024 <= 1893456000000) by (vm_compute; discriminate).
  split; [exact Hle|].
  exact (proj2 (reconcile_later_now parseDateOnly
                  [sampleEvent 1 "a" "2025-01-01"; sampleEvent 2 "b" "2099-01-01"]
                  now2024 1893456000000 Hle)).
Defined.

Lemma reconcile_delete_commute_witness :
  events (deleteEvent 1 DeleteOk
            (fetchEventData parseDateOnly now2024
               (FetchOk (Some (JArray
                  [sampleEvent 1 "a" "2099-01-01"; sampleEvent 2 "b" "2099-01-01";
                   sampleEvent 1 "c" "2099-06-01"])))
               (sampleState [])))
  = events (fetchEventData parseDateOnly now2024
              (FetchOk (Some (JArray
                 (List.filter (hasOtherId 1)
                    [sampleEvent 1 "a" "2099-01-01"; sampleEvent 2 "b" "2099-01-01";
                     sampleEvent 1 "c" "2099-06-01"]))))
              (sampleState [])).
Proof.
  apply (proj2 (reconcile_delete_commute parseDateOnly _ now2024 1)).
  simpl. discriminate.
Defined.

Lemma fetchEventData_failure_keeps_events_witness :
  events (fetchEventData parseDateOnly now2024 (FetchNotOk 500)
            (sampleState [sampleEvent 1 "a" "2099-01-01"]))
  = [sampleEvent 1 "a" "2099-01-01"] /\
  exists msg,
    console (fetchEventData parseDateOnly now2024 (FetchNotOk 500)
               (sampleState [sampleEvent 1 "a" "2099-01-01"]))
    = [] ++ [msg].
Proof.
  apply (fetchEventData_failure_keeps_events parseDateOnly now2024 (FetchNotOk 500)
           (sampleState [sampleEvent 1 "a" "2099-01-01"])).
  - intros data. discriminate.
  - simpl. discriminate.
Defined.

Lemma no_user_id_no_events_witness :
  render (run parseDateOnly
            [ActFetch now2024 (FetchOk (Some (JArray [sampleEvent 1 "a" "2099-01-01"])));
             ActHandleDelete 1 PressDelete DeleteOk]
            (getUserId (StorageItem None) initialState))
  = NoEventsFound.
Proof.
  apply (no_user_id_no_events parseDateOnly (StorageItem None)
           [ActFetch now2024 (FetchOk (Some (JArray [sampleEvent 1 "a" "2099-01-01"])));
            ActHandleDelete 1 PressDelete DeleteOk]).
  - intros id. discriminate.
  - intros r Hr.
    apply elem_of_cons in Hr as [Hr|Hr]; [discriminate Hr|].
    apply elem_of_cons in Hr as [Hr|Hr]; [discriminate Hr|].
    by apply elem_of_nil in Hr.
Defined.

Lemma handleDelete_changes_only_when_confirmed_witness :
  events (handleDelete 1 PressDelete DeleteOk
            (sampleState [sampleEvent 1 "a" "2099-01-01"]))
  <> [sampleEvent 1 "a" "2099-01-01"] /\
  1 ∈ ids [sampleEvent 1 "a" "2099-01-01"].
Proof.
  assert (Hne : events (handleDelete 1 PressDelete DeleteOk
                          (sampleState [sampleEvent 1 "a" "2099-01-01"]))
                <> events (sampleState [sampleEvent 1 "a" "2099-01-01"]))
    by (simpl; discriminate).
  split; [exact Hne|].
  exact (proj2 (proj2 (proj2 (handleDelete_changes_only_when_confirmed
                                1 PressDelete DeleteOk
                                (sampleState [sampleEvent 1 "a" "2099-01-01"])) Hne))).
Defined.


Lemma deleteEvent_removes_one_witness :
  length [sampleEvent 1 "a" "2099-01-01"; sampleEvent 2 "b" "2099-01-01"]
  = S (length (events (deleteEvent 1 DeleteOk
                         (sampleState [sampleEvent 1 "a" "2099-01-01";
                                       sampleEvent 2 "b" "2099-01-01"])))).
Proof.
  apply (deleteEvent_removes_one 1
           (sampleState [sampleEvent 1 "a" "2099-01-01"; sampleEvent 2 "b" "2099-01-01"])).
  - simpl. apply NoDup_cons. split; [|apply NoDup_singleton].
    intros H%list_elem_of_singleton. discriminate H.
  - simpl. left.
Defined.

Lemma run_provenance_witness :
  sampleEvent 1 "a" "2099-01-01"
    ∈ fetchedRecords
        [ActGetUserId (StorageItem (Some "7"));
         ActFetch now2024
           (FetchOk (Some (JArray [sampleEvent 1 "a" "2099-01-01";
                                   sampleEvent 2 "b" "2000-01-01"])))].
Proof.
  apply (run_provenance parseDateOnly
           [ActGetUserId (StorageItem (Some "7"));
            ActFetch now2024
              (FetchOk (Some (JArray [sampleEvent 1 "a" "2099-01-01";
                                      sampleEvent 2 "b" "2000-01-01"])))]).
  vm_compute. left.
Defined.

(** ** The cards and the deletion *)

Lemma cards_not_loading (st : State) :
  loading st = false -> cards st = map eventCard (events st).
Proof.
  intros Hl. unfold cards, render. rewrite Hl. by destruct (events st).
Qed.

Lemma cards_loading (st : State) : loading st = true -> cards st = [].
Proof. intros Hl. unfold cards, render. by rewrite Hl. Qed.

Lemma filter_map_card (k : Z) (l : list EventData) :
  map eventCard (List.filter (hasOtherId k) l)
  = List.filter (fun c => negb (card_key c =? k)) (map eventCard l).
Proof.
  induction l as [|e l IH]; simpl; [done|].
  unfold hasOtherId at 1. destruct (negb (event_id e =? k)); simpl; by rewrite IH.
Qed.

(** X20. The delete button of a card on screen acts on that card: once
    the user confirms and the server accepts, the cards on screen are the
    former cards without those bearing the key of the pressed card, in
    the same order, and the pressed card is gone. *)
Theorem delete_button_removes_card (st : State) (c : Card) :
  c ∈ cards st ->
  cards (handleDelete (card_delete c) PressDelete DeleteOk st)
  = List.filter (fun c' => negb (card_key c' =? card_key c)) (cards st) /\
  c ∉ cards (handleDelete (card_delete c) PressDelete DeleteOk st).
Proof.
  intros Hc. destruct (loading st) eqn:Hl.
  { rewrite cards_loading in Hc by done. by apply elem_of_nil in Hc. }
  assert (Hk : card_delete c = card_key c).
  { rewrite cards_not_loading in Hc by done.
    apply list_elem_of_fmap in Hc as (e & -> & _). done. }
  assert (Heq : cards (handleDelete (card_delete c) PressDelete DeleteOk st)
                = List.filter (fun c' => negb (card_key c' =? card_key c)) (cards st)).
  { rewrite cards_not_loading by done. rewrite (cards_not_loading st) by done.
    simpl. rewrite Hk. apply filter_map_card. }
  split; [done|]. rewrite Heq. intros [_ Hkey]%elem_of_filter_bool.
  by rewrite Z.eqb_refl in Hkey.
Qed.

Lemma delete_button_removes_card_witness :
  cards (handleDelete 1 PressDelete DeleteOk
           (sampleState [sampleEvent 1 "a" "2099-01-01"; sampleEvent 2 "b" "2099-01-01"]))
  = List.filter (fun c' => negb (card_key c' =? 1))
      (cards (sampleState [sampleEvent 1 "a" "2099-01-01";
                           sampleEvent 2 "b" "2099-01-01"])).
Proof.
  apply (delete_button_removes_card
           (sampleState [sampleEvent 1 "a" "2099-01-01"; sampleEvent 2 "b" "2099-01-01"])
           (eventCard (sampleEvent 1 "a" "2099-01-01"))).
  vm_compute. left.
Defined.
